(** * A shallow embedding of the KPC Arduino debugger (kdb.h / kdb.cpp)

    The global instance [__KDB] of class [_KDB] is modelled as an explicit
    state record that also carries the world the code talks to: the raw
    memory reached through pointers, the digital pins, the serial input
    (one event per call of [_KDB_Serial.available()]) and the serial output
    (every [write] and every [delay]).  Methods become actions of a small
    state/blocking monad: [None] means the method never returns (it busy
    polls a serial line that delivers no further byte, or it ran out of the
    iteration fuel given to an unbounded loop). *)

From Stdlib Require Import ZArith List Bool Lia.
Import ListNotations.
Open Scope Z_scope.

(** ** Opcodes: [enum _KDB_OpType] (kdb.h, lines 20-36) *)

Inductive OpType :=
| KDB_RETURN | KDB_READ_MEM | KDB_WRITE_MEM | KDB_READ_CAP | KDB_WRITE_CAP
| KDB_READ_PIN | KDB_WRITE_PIN | KDB_INIT | KDB_DEBUGGER | KDB_CAPTURE
| KDB_READ_MEM_RES | KDB_READ_CAP_RES | KDB_READ_PIN_RES | KDB_PRINT.

(** The enumerators in declaration order. *)
Definition OpType_decl : list OpType :=
  [KDB_RETURN; KDB_READ_MEM; KDB_WRITE_MEM; KDB_READ_CAP; KDB_WRITE_CAP;
   KDB_READ_PIN; KDB_WRITE_PIN; KDB_INIT; KDB_DEBUGGER; KDB_CAPTURE;
   KDB_READ_MEM_RES; KDB_READ_CAP_RES; KDB_READ_PIN_RES; KDB_PRINT].

Definition OpType_eqb (a b : OpType) : bool :=
  match a, b with
  | KDB_RETURN, KDB_RETURN | KDB_READ_MEM, KDB_READ_MEM
  | KDB_WRITE_MEM, KDB_WRITE_MEM | KDB_READ_CAP, KDB_READ_CAP
  | KDB_WRITE_CAP, KDB_WRITE_CAP | KDB_READ_PIN, KDB_READ_PIN
  | KDB_WRITE_PIN, KDB_WRITE_PIN | KDB_INIT, KDB_INIT
  | KDB_DEBUGGER, KDB_DEBUGGER | KDB_CAPTURE, KDB_CAPTURE
  | KDB_READ_MEM_RES, KDB_READ_MEM_RES | KDB_READ_CAP_RES, KDB_READ_CAP_RES
  | KDB_READ_PIN_RES, KDB_READ_PIN_RES | KDB_PRINT, KDB_PRINT => true
  | _, _ => false
  end.

Fixpoint index_of (o : OpType) (l : list OpType) : Z :=
  match l with
  | [] => 0
  | x :: l' => if OpType_eqb o x then 0 else 1 + index_of o l'
  end.

(** A C enumerator without initialisers has the value of its position. *)
Definition opcode (o : OpType) : Z := index_of o OpType_decl.

(** ** Data: [struct _KDB_PtrWithSize] and the members of [_KDB] *)

Record PtrWithSize := mkPtr { size : Z; ptr : Z }.

(** Serial output events: a written byte, or a [delay(ms)]. *)
Inductive ev := Write (b : Z) | Delay (ms : Z).

(** A frame as received by [doOp]: opcode, declared size and the payload
    [readbuf[0..opSize-1]].  This is ghost data recorded at the [switch]
    of [doOp]; the C code keeps no such log. *)
Record frame := mkFrame { f_op : Z; f_len : Z; f_payload : list Z }.

Record St := mkSt {
  caps : Z -> PtrWithSize;    (** [caps[32]]; indices >= 32 lie past the array *)
  capsize : Z;                (** [uint8_t capsize] *)
  readbuf : nat -> Z;         (** [uint8_t readbuf[32]]; indices >= 32 lie past it *)
  loops : bool;               (** [volatile bool loops] *)
  mem : Z -> Z;               (** raw memory, addressed by number *)
  pins : Z -> Z;              (** digital pin levels *)
  input : list (option Z);    (** serial events: [Some b] = byte available, [None] = not *)
  output : list ev;           (** serial writes and delays, oldest first *)
  received : list frame       (** ghost: frames dispatched by [doOp] *)
}.

Definition set_caps c s := mkSt c (capsize s) (readbuf s) (loops s) (mem s) (pins s) (input s) (output s) (received s).
Definition set_capsize n s := mkSt (caps s) n (readbuf s) (loops s) (mem s) (pins s) (input s) (output s) (received s).
Definition set_readbuf b s := mkSt (caps s) (capsize s) b (loops s) (mem s) (pins s) (input s) (output s) (received s).
Definition set_loops l s := mkSt (caps s) (capsize s) (readbuf s) l (mem s) (pins s) (input s) (output s) (received s).
Definition set_mem m s := mkSt (caps s) (capsize s) (readbuf s) (loops s) m (pins s) (input s) (output s) (received s).
Definition set_pins p s := mkSt (caps s) (capsize s) (readbuf s) (loops s) (mem s) p (input s) (output s) (received s).
Definition set_input i s := mkSt (caps s) (capsize s) (readbuf s) (loops s) (mem s) (pins s) i (output s) (received s).
Definition set_output o s := mkSt (caps s) (capsize s) (readbuf s) (loops s) (mem s) (pins s) (input s) o (received s).
Definition set_received r s := mkSt (caps s) (capsize s) (readbuf s) (loops s) (mem s) (pins s) (input s) (output s) r.

(** ** The monad *)

Definition M (A : Type) := St -> option (A * St).

Definition ret {A} (a : A) : M A := fun s => Some (a, s).
Definition bind {A B} (m : M A) (k : A -> M B) : M B :=
  fun s => match m s with Some (a, s') => k a s' | None => None end.
Definition get : M St := fun s => Some (s, s).
Definition modify (f : St -> St) : M unit := fun s => Some (tt, f s).
Definition diverge {A} : M A := fun _ => None.

Notation "x <- m ;; k" := (bind m (fun x => k)) (at level 61, m at next level, right associativity).
Notation "m ;;; k" := (bind m (fun _ => k)) (at level 61, right associativity).

(** uint8_t stores *)
Definition u8 (z : Z) : Z := Z.land z 255.

Definition upd_buf (b : nat -> Z) (i : nat) (v : Z) : nat -> Z :=
  fun j => if Nat.eqb j i then v else b j.

Definition set_buf (i : nat) (v : Z) : M unit :=
  modify (fun s => set_readbuf (upd_buf (readbuf s) i (u8 v)) s).

(** ** The environment: serial port, pins, delay *)

(** [if (_KDB_Serial.available()) { res = _KDB_Serial.read(); ... }]:
    one poll.  An exhausted event list means no byte ever arrives again. *)
Definition poll : M (option Z) :=
  fun s => match input s with
           | [] => Some (None, s)
           | e :: rest => Some (e, set_input rest s)
           end.

Definition serial_write (b : Z) : M unit :=
  modify (fun s => set_output (output s ++ [Write (u8 b)]) s).

Definition delay (ms : Z) : M unit :=
  modify (fun s => set_output (output s ++ [Delay ms]) s).

Definition digitalRead (pin : Z) : M Z := fun s => Some (pins s pin, s).
Definition digitalWrite (pin v : Z) : M unit :=
  modify (fun s => set_pins (fun p => if p =? pin then v else pins s p) s).

(** [memcpy(readbuf, (void * )src, n)] *)
Definition memcpy_to_buf (b : nat -> Z) (m : Z -> Z) (src : Z) (n : Z) : nat -> Z :=
  fun j => if Z.of_nat j <? n then m (src + Z.of_nat j) else b j.

(** [memcpy((void * )dst, readbuf + off, n)] *)
Definition memcpy_from_buf (m : Z -> Z) (dst : Z) (b : nat -> Z) (off : nat) (n : Z) : Z -> Z :=
  fun a => if (dst <=? a) && (a <? dst + n) then b (off + Z.to_nat (a - dst))%nat else m a.

(** ** [_KDB::sendOp] (kdb.cpp, lines 150-160) *)

Fixpoint write_buf (i : nat) (n : nat) : M unit :=
  match n with
  | O => ret tt
  | S n' => s <- get ;; serial_write (readbuf s i) ;;; write_buf (S i) n'
  end.

Definition sendOp (opType opSize : Z) : M unit :=
  serial_write 160 ;;; serial_write 30 ;;;
  serial_write opType ;;; serial_write opSize ;;;
  write_buf 0 (Z.to_nat (u8 opSize)).

(** ** [_KDB::readSize] (kdb.cpp, lines 246-264)

    The busy loop consumes one serial event per iteration; it never
    returns when the line stops delivering bytes.  [last] is the
    decremented [size]. *)
Fixpoint readSize_loop (inp : list (option Z)) (pos last : nat) (s : St)
  : option (unit * St) :=
  match inp with
  | [] => None
  | None :: rest => readSize_loop rest pos last s
  | Some b :: rest =>
      let s' := set_readbuf (upd_buf (readbuf s) pos (u8 b)) s in
      if Nat.eqb pos last then Some (tt, set_input rest s')
      else readSize_loop rest (S pos) last s'
  end.

Definition readSize (sz : Z) : M unit :=
  fun s => if sz =? 0 then Some (tt, s)
           else readSize_loop (input s) 0 (Z.to_nat (sz - 1)) s.

(** ** [_KDB::doOp] (kdb.cpp, lines 162-212) *)

(** [readbuf[0] << 24 | readbuf[1] << 16 | readbuf[2] << 8 | readbuf[3]] *)
Definition buf_addr (b : nat -> Z) : Z :=
  Z.lor (Z.lor (Z.lor (Z.shiftl (b 0%nat) 24) (Z.shiftl (b 1%nat) 16))
               (Z.shiftl (b 2%nat) 8)) (b 3%nat).

Definition dispatch (opType opSize : Z) : M unit :=
  s <- get ;;
  let b := readbuf s in
  if opType =? opcode KDB_RETURN then
    modify (set_loops false)
  else if opType =? opcode KDB_READ_MEM then
    let addr := buf_addr b in
    let sz := b 4%nat in
    modify (fun s => set_readbuf (memcpy_to_buf (readbuf s) (mem s) addr sz) s) ;;;
    sendOp (opcode KDB_READ_MEM_RES) sz
  else if opType =? opcode KDB_WRITE_MEM then
    let addr := buf_addr b in
    let sz := b 4%nat in
    modify (fun s => set_mem (memcpy_from_buf (mem s) addr (readbuf s) 5 sz) s)
  else if opType =? opcode KDB_READ_PIN then
    let pin := b 0%nat in
    v <- digitalRead pin ;;
    set_buf 0 v ;;;
    sendOp (opcode KDB_READ_PIN_RES) 1
  else if opType =? opcode KDB_WRITE_PIN then
    digitalWrite (b 0%nat) (b 1%nat)
  else if opType =? opcode KDB_READ_CAP then
    let p := caps s (b 0%nat) in
    modify (fun s => set_readbuf (memcpy_to_buf (readbuf s) (mem s) (ptr p) (size p)) s) ;;;
    sendOp (opcode KDB_READ_CAP_RES) (size p)
  else if opType =? opcode KDB_WRITE_CAP then
    let p := caps s (b 0%nat) in
    modify (fun s => set_mem (memcpy_from_buf (mem s) (ptr p) (readbuf s) 1 (size p)) s)
  else ret tt.

Definition buf_prefix (b : nat -> Z) (n : Z) : list Z :=
  map b (seq 0 (Z.to_nat n)).

Definition doOp : M unit :=
  readSize 2 ;;;
  s <- get ;;
  let opType := readbuf s 0%nat in
  let opSize := readbuf s 1%nat in
  readSize opSize ;;;
  (* ghost: record the frame handed to the switch *)
  modify (fun s => set_received
            (received s ++ [mkFrame opType opSize (buf_prefix (readbuf s) opSize)]) s) ;;;
  dispatch opType opSize.

(** ** [_KDB::readOp] (kdb.cpp, lines 213-244)

    [fuel] bounds the number of iterations of [while (loops)]; running out
    of it means the loop has not returned (yet). *)
Fixpoint readOp_loop (fuel : nat) (maxloop isOp : Z) : M unit :=
  match fuel with
  | O => diverge
  | S f =>
      s <- get ;;
      if negb (loops s) then ret tt else
      let ml := if maxloop =? 255 then maxloop else u8 (maxloop - 1) in
      if negb (maxloop =? 255) && (ml =? 0) then ret tt else
      r <- poll ;;
      match r with
      | None => readOp_loop f ml isOp
      | Some res =>
          if res =? 160 then readOp_loop f ml 1
          else if res =? 30 then
            (if isOp =? 1 then doOp ;;; readOp_loop f ml 0
             else readOp_loop f ml isOp)
          else readOp_loop f ml isOp
      end
  end.

Definition readOp (fuel : nat) (maxloop : Z) : M unit := readOp_loop fuel maxloop 0.

(** ** [_KDB::debugger], [_KDB::capture], [_KDB::init] (kdb.cpp, lines 23-65) *)

Definition debugger (fuel : nat) (line : Z) : M unit :=
  set_buf 0 (Z.shiftr line 8) ;;; set_buf 1 line ;;;
  sendOp (opcode KDB_DEBUGGER) 2 ;;;
  modify (set_loops true) ;;;
  readOp fuel 255.

Definition capture (line x sz : Z) : M unit :=
  set_buf 0 (Z.shiftr line 8) ;;; set_buf 1 line ;;;
  let px := x in
  set_buf 2 (Z.shiftr px 24) ;;; set_buf 3 (Z.shiftr px 16) ;;;
  set_buf 4 (Z.shiftr px 8) ;;; set_buf 5 px ;;;
  set_buf 6 sz ;;;
  s <- get ;;
  set_buf 7 (capsize s) ;;;
  modify (fun s => set_caps (fun i => if i =? capsize s then mkPtr (u8 sz) x
                                      else caps s i) s) ;;;
  sendOp (opcode KDB_CAPTURE) 8 ;;;
  modify (fun s => set_capsize (u8 (capsize s + 1)) s).

(** One pass of the body of [while (loops)] in [init]; [readOp(200)]
    performs at most 200 iterations. *)
Definition init_round (line : Z) : M unit :=
  set_buf 0 (Z.shiftr line 8) ;;; set_buf 1 line ;;;
  sendOp (opcode KDB_INIT) 2 ;;;
  readOp 200 200 ;;;
  delay 100.



(** ** [_KDB::print] and [_KDB::println] on a C string (kdb.cpp, lines 67-115)

    A C string is the list of its bytes before the terminating NUL. *)

(** [memcpy(readbuf + off, str, n)] *)
Definition memcpy_str_to_buf (b : nat -> Z) (off : nat) (str : list Z) (n : Z) : nat -> Z :=
  fun j => if (off <=? j)%nat && (Z.of_nat j <? Z.of_nat off + n)
           then nth (j - off) str 0 else b j.

Definition print (line : Z) (str : list Z) : M unit :=
  let len0 := u8 (Z.of_nat (length str)) in          (* uint8_t len = strlen(str) *)
  let len := if len0 >? 29 then 29 else len0 in
  set_buf 0 (Z.shiftr line 8) ;;; set_buf 1 line ;;; set_buf 2 0 ;;;
  modify (fun s => set_readbuf (memcpy_str_to_buf (readbuf s) 3 str len) s) ;;;
  sendOp (opcode KDB_PRINT) (len + 3).

Definition println (line : Z) (str : list Z) : M unit :=
  let len0 := u8 (Z.of_nat (length str)) in
  let len := if len0 >? 29 then 29 else len0 in
  set_buf 0 (Z.shiftr line 8) ;;; set_buf 1 line ;;; set_buf 2 1 ;;;
  modify (fun s => set_readbuf (memcpy_str_to_buf (readbuf s) 3 str len) s) ;;;
  sendOp (opcode KDB_PRINT) (len + 3).

(** ** The numeric overloads of [print] and [println] (kdb.cpp, lines 78-143)

    [itoa], [ltoa] and [utoa] with radix 10 write the decimal digits of the
    value, most significant first, with a leading '-' for a negative signed
    value.  [fuel] is one per digit; 20 digits hold any 64-bit value. *)
Fixpoint utoa_aux (fuel : nat) (n : Z) (acc : list Z) : list Z :=
  match fuel with
  | O => acc
  | S f => let acc' := (48 + n mod 10) :: acc in
           if n <? 10 then acc' else utoa_aux f (n / 10) acc'
  end.

Definition utoa (n : Z) : list Z := utoa_aux 20 n [].
Definition itoa (v : Z) : list Z := if v <? 0 then 45 :: utoa (- v) else utoa v.
Definition ltoa (v : Z) : list Z := itoa v.

Definition print_int (line v : Z) : M unit := print line (itoa v).
Definition print_long (line v : Z) : M unit := print line (ltoa v).
Definition print_uint (line v : Z) : M unit := print line (utoa v).
Definition println_int (line v : Z) : M unit := println line (itoa v).
Definition println_long (line v : Z) : M unit := println line (ltoa v).
Definition println_uint (line v : Z) : M unit := println line (utoa v).

(** [println(line)] is [println(line, "")]. *)
Definition println_empty (line : Z) : M unit := println line [].

(** ** The constructor [_KDB::_KDB()] (kdb.cpp, lines 12-21), in a given world *)
Definition kdb_new (m p : Z -> Z) (inp : list (option Z)) : St :=
  mkSt (fun _ => mkPtr 0 0) 0 (fun _ => 0) false m p inp [] [].

(** * Lemmas about the embedding *)

Lemma set_output_twice o1 o2 s : set_output o2 (set_output o1 s) = set_output o2 s.
Proof. destruct s; reflexivity. Qed.

Lemma write_buf_spec n : forall i s,
  write_buf i n s =
  Some (tt, set_output (output s ++ map (fun j => Write (u8 (readbuf s j))) (seq i n)) s).
Proof.
  induction n as [|n IH]; intros i s; cbn [write_buf seq map].
  - rewrite app_nil_r. destruct s; reflexivity.
  - unfold bind at 1, get. unfold bind at 1, serial_write, modify.
    rewrite IH. cbn. rewrite <- app_assoc. reflexivity.
Qed.

Definition frame_bytes (op n : Z) (b : nat -> Z) : list Z :=
  [160; 30; u8 op; u8 n] ++ map (fun i => u8 (b i)) (seq 0 (Z.to_nat (u8 n))).

Lemma sendOp_spec op n s :
  sendOp op n s = Some (tt, set_output (output s ++ map Write (frame_bytes op n (readbuf s))) s).
Proof.
  unfold sendOp, bind, serial_write, modify.
  rewrite write_buf_spec. cbn.
  rewrite map_map, <- !app_assoc. reflexivity.
Qed.

(** [readSize] only fills [readbuf] and consumes input. *)
Definition buf_only (s s' : St) : Prop :=
  output s' = output s /\ received s' = received s /\ loops s' = loops s /\
  capsize s' = capsize s /\ caps s' = caps s /\ mem s' = mem s.

Lemma readSize_loop_buf_only inp : forall pos last s s',
  readSize_loop inp pos last s = Some (tt, s') -> buf_only s s'.
Proof.
  induction inp as [|[b|] inp IH]; intros pos last s s' H; cbn in H.
  - discriminate.
  - destruct (Nat.eqb pos last).
    + inversion H; subst. repeat split.
    + apply IH in H. destruct H as (?&?&?&?&?&?). repeat split; assumption.
  - eapply IH; eassumption.
Qed.

Lemma readSize_buf_only n s s' : readSize n s = Some (tt, s') -> buf_only s s'.
Proof.
  unfold readSize. destruct (n =? 0).
  - intros H; inversion H; subst. repeat split.
  - apply readSize_loop_buf_only.
Qed.

(** What one dispatched operation may change. *)
Lemma dispatch_effect op n s s' :
  dispatch op n s = Some (tt, s') ->
  (exists tl, output s' = output s ++ tl) /\ received s' = received s /\
  capsize s' = capsize s /\ loops s' = (if op =? 0 then false else loops s).
Proof.
  unfold dispatch, bind, get, modify, ret, set_buf, digitalRead, digitalWrite.
  change (opcode KDB_RETURN) with 0.
  destruct (op =? 0) eqn:E0.
  { intros H; inversion H; subst. cbn. split; [exists nil; rewrite app_nil_r|]; repeat split. }
  repeat match goal with
  | |- context [if ?c then _ else _] => destruct c
  end;
  intros H; cbn -[sendOp] in H; try rewrite sendOp_spec in H;
  inversion H; subst; cbn;
  (split; [first [ exists nil; rewrite app_nil_r; reflexivity
                 | eexists; reflexivity ]
          | repeat split]).
Qed.

Lemma doOp_effect s s' :
  doOp s = Some (tt, s') ->
  exists F, received s' = received s ++ [F] /\ (exists tl, output s' = output s ++ tl) /\
    capsize s' = capsize s /\ loops s' = (if f_op F =? 0 then false else loops s).
Proof.
  unfold doOp, bind at 1.
  destruct (readSize 2 s) as [[[] s1]|] eqn:R1; [|discriminate].
  unfold bind at 1, get, bind at 1.
  destruct (readSize (readbuf s1 1) s1) as [[[] s2]|] eqn:R2; [|discriminate].
  unfold bind, modify. intros H.
  apply dispatch_effect in H. cbn [received output capsize loops set_received] in H. destruct H as ((tl & Ho) & Hr & Hc & Hl).
  apply readSize_buf_only in R1, R2.
  destruct R1 as (?&?&?&?&_), R2 as (?&?&?&?&_).
  exists (mkFrame (readbuf s1 0) (readbuf s1 1) (buf_prefix (readbuf s2) (readbuf s1 1))).
  cbn [f_op]. repeat split.
  - rewrite Hr. congruence.
  - exists tl. congruence.
  - congruence.
  - rewrite Hl, H5, H1. reflexivity.
Qed.

(** Runs of the dispatcher only extend the output and the frame log, keep
    [capsize], and switch [loops] off only by receiving a RETURN frame. *)
Definition progress (s s' : St) : Prop :=
  (exists tl, output s' = output s ++ tl) /\
  (exists fr, received s' = received s ++ fr /\
     (loops s = true -> loops s' = false -> exists F, In F fr /\ f_op F = 0)) /\
  capsize s' = capsize s.

Lemma progress_refl s : progress s s.
Proof.
  split; [exists nil; rewrite app_nil_r; reflexivity|].
  split; [exists nil; rewrite app_nil_r; split; [reflexivity|congruence]|reflexivity].
Qed.

Lemma progress_trans s1 s2 s3 : progress s1 s2 -> progress s2 s3 -> progress s1 s3.
Proof.
  intros ((t1&O1)&(f1&R1&L1)&C1) ((t2&O2)&(f2&R2&L2)&C2).
  split; [exists (t1 ++ t2); rewrite O2, O1, app_assoc; reflexivity|].
  split; [|congruence].
  exists (f1 ++ f2). split; [rewrite R2, R1, app_assoc; reflexivity|].
  intros T F. destruct (loops s2) eqn:E2.
  - destruct (L2 eq_refl F) as (G&HG&HG'). exists G. split; [apply in_or_app; right|]; assumption.
  - destruct (L1 T eq_refl) as (G&HG&HG'). exists G. split; [apply in_or_app; left|]; assumption.
Qed.

Lemma progress_set_input l s : progress s (set_input l s).
Proof. pose proof (progress_refl s) as P. unfold progress in *. exact P. Qed.

Lemma doOp_progress s s' : doOp s = Some (tt, s') -> progress s s'.
Proof.
  intros H. apply doOp_effect in H. destruct H as (F&Hr&Ho&Hc&Hl).
  split; [assumption|]. split; [|assumption].
  exists [F]. split; [assumption|]. intros T E.
  exists F. split; [left; reflexivity|].
  rewrite Hl, T in E. destruct (f_op F =? 0) eqn:Z0; [apply Z.eqb_eq; assumption|discriminate].
Qed.

Lemma readOp_loop_progress fuel : forall ml isOp s s',
  readOp_loop fuel ml isOp s = Some (tt, s') -> progress s s'.
Proof.
  induction fuel as [|f IH]; intros ml isOp s s' H; [discriminate|].
  cbn [readOp_loop] in H. unfold bind at 1, get in H.
  destruct (loops s); cbn [negb] in H;
    [|inversion H; subst; apply progress_refl].
  match type of H with context [if ?c then _ else _] => destruct c end;
    [inversion H; subst; apply progress_refl|].
  unfold bind at 1, poll in H.
  destruct (input s) as [|e rest].
  - eapply IH; eassumption.
  - apply progress_trans with (set_input rest s); [apply progress_set_input|].
    destruct e as [res|]; [|eapply IH; eassumption].
    repeat match type of H with context [if ?c then _ else _] => destruct c end;
      try (eapply IH; eassumption);
    unfold bind at 1 in H;
    destruct (doOp (set_input rest s)) as [[[] s1]|] eqn:D; try discriminate;
    (apply progress_trans with s1;
       [apply doOp_progress; assumption | eapply IH; eassumption]).
Qed.



Lemma readOp_progress fuel ml s s' :
  readOp fuel ml s = Some (tt, s') -> progress s s'.
Proof. unfold readOp. apply readOp_loop_progress. Qed.

Lemma bind_inv {A B} (m : M A) (k : A -> M B) s r :
  bind m k s = Some r -> exists a s1, m s = Some (a, s1) /\ k a s1 = Some r.
Proof. unfold bind. destruct (m s) as [[a s1]|]; [eauto|discriminate]. Qed.


Lemma bind_eq {A B} (m : M A) (k : A -> M B) s a s1 :
  m s = Some (a, s1) -> bind m k s = k a s1.
Proof. unfold bind. intros ->. reflexivity. Qed.


Lemma u8_small z : 0 <= z < 256 -> u8 z = z.
Proof.
  intros. unfold u8. change 255 with (Z.ones 8).
  rewrite Z.land_ones by lia. apply Z.mod_small. lia.
Qed.


Lemma u8_idem z : u8 (u8 z) = u8 z.
Proof. unfold u8. rewrite <- Z.land_assoc. reflexivity. Qed.





(** ** Reading a well-formed frame *)

Fixpoint fill_buf (b : nat -> Z) (pos : nat) (l : list Z) : nat -> Z :=
  match l with
  | [] => b
  | x :: l' => fill_buf (upd_buf b pos (u8 x)) (S pos) l'
  end.

Lemma fill_buf_spec l : forall b pos j,
  fill_buf b pos l j =
  if (pos <=? j)%nat && (j <? pos + length l)%nat then u8 (nth (j - pos) l 0) else b j.
Proof.
  induction l as [|x l IH]; intros b pos j; cbn [fill_buf length].
  - destruct (Nat.leb_spec pos j), (Nat.ltb_spec j (pos + 0)); cbn [andb];
      reflexivity || lia.
  - rewrite IH. unfold upd_buf.
    destruct (Nat.leb_spec (S pos) j), (Nat.ltb_spec j (S pos + length l)),
             (Nat.leb_spec pos j), (Nat.ltb_spec j (pos + S (length l)));
      cbn [andb]; try lia;
      first [ replace (j - pos)%nat with (S (j - S pos)) by lia; reflexivity
            | destruct (Nat.eqb_spec j pos); [lia|reflexivity]
            | assert (j = pos) by lia; subst; rewrite Nat.eqb_refl, Nat.sub_diag; reflexivity ].
Qed.

Lemma readSize_loop_fill l : forall pos last rest s,
  l <> [] -> last = (pos + length l - 1)%nat ->
  readSize_loop (map Some l ++ rest) pos last s =
  Some (tt, set_input rest (set_readbuf (fill_buf (readbuf s) pos l) s)).
Proof.
  induction l as [|x l IH]; intros pos last rest s Hne Hl; [congruence|].
  cbn [map app readSize_loop fill_buf].
  destruct l as [|y l'].
  - cbn [length] in Hl. replace last with pos by lia. rewrite Nat.eqb_refl. reflexivity.
  - cbn [length] in Hl.
    destruct (Nat.eqb_spec pos last); [lia|].
    rewrite IH by (try congruence; cbn [length]; lia). reflexivity.
Qed.

Lemma readSize_spec l rest s :
  input s = map Some l ++ rest -> (length l < 256)%nat ->
  readSize (Z.of_nat (length l)) s =
  Some (tt, set_input rest (set_readbuf (fill_buf (readbuf s) 0 l) s)).
Proof.
  intros Hi Hlen. unfold readSize.
  destruct l as [|x l'].
  - cbn in Hi |- *. destruct s; cbn in *; subst; reflexivity.
  - replace (Z.of_nat (length (x :: l')) =? 0) with false
      by (symmetry; apply Z.eqb_neq; cbn [length]; lia).
    rewrite Hi. apply readSize_loop_fill; [congruence|].
    cbn [length]. lia.
Qed.

(** The scratch buffer after [doOp] has read the header and the payload. *)
Definition frame_buf (b : nat -> Z) (op : Z) (payload : list Z) : nat -> Z :=
  fill_buf (fill_buf b 0 [op; Z.of_nat (length payload)]) 0 payload.

Lemma doOp_frame op payload rest s :
  0 <= op < 256 -> (length payload < 256)%nat ->
  input s = map Some (op :: Z.of_nat (length payload) :: payload) ++ rest ->
  doOp s =
  dispatch op (Z.of_nat (length payload))
    (mkSt (caps s) (capsize s) (frame_buf (readbuf s) op payload) (loops s)
          (mem s) (pins s) rest (output s)
          (received s ++ [mkFrame op (Z.of_nat (length payload))
              (buf_prefix (frame_buf (readbuf s) op payload) (Z.of_nat (length payload)))])).
Proof.
  intros Hop Hlen Hi. unfold doOp.
  rewrite (bind_eq _ _ _ _ _ (readSize_spec [op; Z.of_nat (length payload)]
                                (map Some payload ++ rest) s Hi ltac:(cbn; lia))).
  rewrite (bind_eq _ _ _ _ _ eq_refl).
  cbn [readbuf set_input set_readbuf].
  set (n := Z.of_nat (length payload)).
  assert (E0 : fill_buf (readbuf s) 0 [op; n] 0%nat = op)
    by (cbn; apply u8_small; lia).
  assert (E1 : fill_buf (readbuf s) 0 [op; n] 1%nat = n)
    by (cbn; apply u8_small; unfold n; lia).
  rewrite E0, E1.
  rewrite (bind_eq _ _ _ _ _
    (readSize_spec payload rest
       (set_input (map Some payload ++ rest) (set_readbuf (fill_buf (readbuf s) 0 [op; n]) s))
       eq_refl Hlen)).
  rewrite (bind_eq _ _ _ _ _ eq_refl). reflexivity.
Qed.

(** The budget after one iteration of [readOp]. *)
Definition dec_ml (ml : Z) : Z := if ml =? 255 then ml else u8 (ml - 1).

Lemma readOp_loop_byte f ml isOp s b rest :
  loops s = true -> (ml = 255 \/ 2 <= ml < 255) -> input s = Some b :: rest ->
  readOp_loop (S f) ml isOp s =
  (if b =? 160 then readOp_loop f (dec_ml ml) 1
   else if b =? 30 then
     (if isOp =? 1 then doOp ;;; readOp_loop f (dec_ml ml) 0
      else readOp_loop f (dec_ml ml) isOp)
   else readOp_loop f (dec_ml ml) isOp) (set_input rest s).
Proof.
  intros Hl Hml Hi. cbn [readOp_loop].
  rewrite (bind_eq _ _ s s s eq_refl), Hl. cbn [negb].
  assert (Hd : negb (ml =? 255) && (dec_ml ml =? 0) = false).
  { unfold dec_ml. destruct Hml as [->|Hml]; [reflexivity|].
    replace (ml =? 255) with false by (symmetry; apply Z.eqb_neq; lia).
    rewrite u8_small by lia. cbn [negb andb]. apply Z.eqb_neq. lia. }
  unfold dec_ml in Hd. rewrite Hd.
  assert (Hp : poll s = Some (Some b, set_input rest s)) by (unfold poll; rewrite Hi; reflexivity).
  rewrite (bind_eq _ _ _ _ _ Hp). reflexivity.
Qed.

Lemma set_input_twice l1 l2 s : set_input l2 (set_input l1 s) = set_input l2 s.
Proof. destruct s; reflexivity. Qed.

Lemma readOp_loop_sync f ml s rest :
  loops s = true -> (ml = 255 \/ 3 <= ml < 255) ->
  input s = Some 160 :: Some 30 :: rest ->
  readOp_loop (S (S f)) ml 0 s =
  (doOp ;;; readOp_loop f (dec_ml (dec_ml ml)) 0) (set_input rest s).
Proof.
  intros Hl Hml Hi.
  rewrite (readOp_loop_byte _ _ _ _ 160 (Some 30 :: rest)) by (auto; lia).
  cbn [Z.eqb Pos.eqb].
  rewrite (readOp_loop_byte _ _ _ _ 30 rest).
  - cbn [Z.eqb Pos.eqb]. rewrite set_input_twice. reflexivity.
  - exact Hl.
  - unfold dec_ml. destruct Hml as [->|Hml]; [left; reflexivity|right].
    replace (ml =? 255) with false by (symmetry; apply Z.eqb_neq; lia).
    rewrite u8_small by lia. lia.
  - reflexivity.
Qed.

Definition is_byte (b : Z) : Prop := 0 <= b < 256.

Lemma map_seq_bytes (f : nat -> Z) (l : list Z) :
  Forall is_byte l -> (forall i, (i < length l)%nat -> f i = nth i l 0) ->
  map (fun i => u8 (f i)) (seq 0 (length l)) = l.
Proof.
  intros Hb Hf.
  apply nth_ext with (d := u8 (f 0%nat)) (d' := 0).
  - rewrite length_map, length_seq. reflexivity.
  - intros i Hi. rewrite length_map, length_seq in Hi.
    rewrite (map_nth (fun i => u8 (f i))), seq_nth by assumption. cbn [Nat.add].
    rewrite Hf by assumption. apply u8_small.
    rewrite Forall_forall in Hb. apply Hb, nth_In. assumption.
Qed.

Lemma frame_buf_payload b op payload :
  Forall is_byte payload ->
  buf_prefix (frame_buf b op payload) (Z.of_nat (length payload)) = payload.
Proof.
  intros Hb. unfold buf_prefix. rewrite Nat2Z.id.
  apply nth_ext with (d := frame_buf b op payload 0%nat) (d' := 0).
  - rewrite length_map, length_seq. reflexivity.
  - intros i Hi. rewrite length_map, length_seq in Hi.
    rewrite (map_nth (frame_buf b op payload)), seq_nth by assumption. cbn [Nat.add].
    unfold frame_buf. rewrite fill_buf_spec.
    destruct (Nat.leb_spec 0 i), (Nat.ltb_spec i (0 + length payload)); cbn [andb]; try lia.
    rewrite Nat.sub_0_r. apply u8_small.
    rewrite Forall_forall in Hb. apply Hb, nth_In. assumption.
Qed.

Lemma frame_buf_spec b op payload j :
  frame_buf b op payload j =
  if (j <? length payload)%nat then u8 (nth j payload 0)
  else if (j =? 0)%nat then u8 op
  else if (j =? 1)%nat then u8 (Z.of_nat (length payload))
  else b j.
Proof.
  unfold frame_buf. rewrite !fill_buf_spec. cbn [length Nat.add].
  destruct (Nat.leb_spec 0 j); [|lia]. cbn [andb]. rewrite Nat.sub_0_r.
  destruct (Nat.ltb_spec j (length payload)); [reflexivity|].
  destruct j as [|[|j]]; reflexivity.
Qed.

Lemma dispatch_some op n s : exists s', dispatch op n s = Some (tt, s').
Proof.
  unfold dispatch, bind, get, modify, ret, set_buf, digitalRead, digitalWrite.
  repeat match goal with
  | |- context [if ?c then _ else _] => destruct c
  end;
  cbn -[sendOp]; try rewrite sendOp_spec; eexists; reflexivity.
Qed.

(** ** [capture] *)

Definition capture_frame (line x sz idx : Z) : list Z :=
  [160; 30; 9; 8; u8 (Z.shiftr line 8); u8 line; u8 (Z.shiftr x 24); u8 (Z.shiftr x 16);
   u8 (Z.shiftr x 8); u8 x; u8 sz; u8 idx].

Lemma capture_spec line x sz s :
  exists s', capture line x sz s = Some (tt, s') /\
    caps s' = (fun i => if i =? capsize s then mkPtr (u8 sz) x else caps s i) /\
    capsize s' = u8 (capsize s + 1) /\
    output s' = output s ++ map Write (capture_frame line x sz (capsize s)) /\
    loops s' = loops s /\ input s' = input s /\ mem s' = mem s.
Proof.
  cbv [capture bind set_buf get modify].
  rewrite sendOp_spec.
  eexists. split; [reflexivity|].
  cbn -[u8 Z.shiftr]. split; [reflexivity|]. split; [reflexivity|].
  split; [|repeat split].
  f_equal. unfold upd_buf. cbn -[u8 Z.shiftr]. change (u8 9) with 9. change (u8 8) with 8. cbn -[u8 Z.shiftr]. change (PosDef.Pos.to_nat 8) with 8%nat. cbn -[u8 Z.shiftr]. rewrite !u8_idem. reflexivity.
Qed.

Fixpoint capture_seq (regs : list (Z * Z * Z)) : M unit :=
  match regs with
  | [] => ret tt
  | (line, x, sz) :: rs => capture line x sz ;;; capture_seq rs
  end.

Fixpoint capture_frames (idx : Z) (regs : list (Z * Z * Z)) : list ev :=
  match regs with
  | [] => []
  | (line, x, sz) :: rs => map Write (capture_frame line x sz idx) ++ capture_frames (idx + 1) rs
  end.

Definition reg_slot (r : Z * Z * Z) : PtrWithSize :=
  let '(_, x, sz) := r in mkPtr (u8 sz) x.

Lemma capture_seq_spec regs : forall s c,
  capsize s = c -> 0 <= c -> c + Z.of_nat (length regs) < 256 ->
  exists s', capture_seq regs s = Some (tt, s') /\
    capsize s' = c + Z.of_nat (length regs) /\
    (forall i, (i < length regs)%nat -> caps s' (c + Z.of_nat i) = reg_slot (nth i regs (0, 0, 0))) /\
    (forall j, j < c \/ c + Z.of_nat (length regs) <= j -> caps s' j = caps s j) /\
    output s' = output s ++ capture_frames c regs.
Proof.
  induction regs as [|[[line x] sz] rs IH]; intros s c Hc H0 Hlt.
  - exists s. cbn [capture_seq length]. split; [reflexivity|].
    split; [lia|]. split; [intros; lia|]. split; [reflexivity|].
    cbn. rewrite app_nil_r. reflexivity.
  - cbn [length] in Hlt.
    destruct (capture_spec line x sz s) as (s1 & E1 & Hcaps & Hsz & Hout & _).
    destruct (IH s1 (c + 1)) as (s2 & E2 & Hsz2 & Hnew & Hold & Hout2).
    { rewrite Hsz, Hc. apply u8_small. lia. }
    { lia. }
    { lia. }
    exists s2. cbn [capture_seq]. rewrite (bind_eq _ _ _ _ _ E1). split; [exact E2|].
    split; [rewrite Hsz2; cbn [length]; lia|].
    split; [|split].
    + intros [|i] Hi.
      * cbn [nth reg_slot]. rewrite Hold by lia. rewrite Hcaps, Hc.
        replace (c + Z.of_nat 0 =? c) with true by (symmetry; apply Z.eqb_eq; lia).
        reflexivity.
      * cbn [nth]. replace (c + Z.of_nat (S i)) with (c + 1 + Z.of_nat i) by lia.
        apply Hnew. cbn [length] in Hi. lia.
    + intros j Hj. cbn [length] in Hj. rewrite Hold by lia. rewrite Hcaps, Hc.
      replace (j =? c) with false by (symmetry; apply Z.eqb_neq; lia). reflexivity.
    + rewrite Hout2, Hout, Hc. cbn [capture_frames]. rewrite app_assoc. reflexivity.
Qed.

Lemma nth_byte (l : list Z) i : Forall is_byte l -> (i < length l)%nat -> is_byte (nth i l 0).
Proof. intros Hb Hi. rewrite Forall_forall in Hb. apply Hb, nth_In. assumption. Qed.

(** READ_CAP and WRITE_CAP on a well-formed frame. *)
Lemma doOp_read_cap (payload : list Z) (rest : list (option Z)) (s : St) :
  Forall is_byte payload -> (1 <= length payload < 256)%nat ->
  let n := Z.of_nat (length payload) in
  let p := caps s (nth 0 payload 0) in
  is_byte (size p) ->
  input s = map Some (opcode KDB_READ_CAP :: n :: payload) ++ rest ->
  exists s', doOp s = Some (tt, s') /\
    output s' = output s ++ map Write ([160; 30; 11; size p] ++
       map (fun i => u8 (mem s (ptr p + Z.of_nat i))) (seq 0 (Z.to_nat (size p)))).
Proof.
  intros Hb Hlen n p Hsz Hi.
  assert (B0 : forall op, frame_buf (readbuf s) op payload 0%nat = nth 0 payload 0).
  { intros op. rewrite frame_buf_spec.
    destruct (Nat.ltb_spec 0 (length payload)); [|lia].
    apply u8_small, nth_byte; [assumption|lia]. }
  rewrite (doOp_frame 3 payload rest s ltac:(lia) ltac:(lia) Hi).
  unfold dispatch. rewrite (bind_eq _ _ _ _ _ eq_refl).
  cbn -[sendOp memcpy_to_buf frame_buf]. rewrite B0. fold p.
  rewrite sendOp_spec. eexists. split; [reflexivity|].
  cbn [output set_output set_readbuf]. unfold frame_bytes.
  rewrite (u8_small (size p) Hsz). cbn [map app]. do 5 f_equal.
  rewrite !map_map. apply map_ext_in. intros i Hin. apply in_seq in Hin.
  unfold memcpy_to_buf. cbn [readbuf set_readbuf].
  replace (Z.of_nat i <? size p) with true by (symmetry; apply Z.ltb_lt; lia).
  reflexivity.
Qed.

Lemma doOp_write_cap (payload : list Z) (rest : list (option Z)) (s : St) :
  Forall is_byte payload -> (1 <= length payload < 256)%nat ->
  let n := Z.of_nat (length payload) in
  let p := caps s (nth 0 payload 0) in
  is_byte (size p) ->
  input s = map Some (opcode KDB_WRITE_CAP :: n :: payload) ++ rest ->
  exists s', doOp s = Some (tt, s') /\ output s' = output s /\
    forall a, mem s' a =
      if (ptr p <=? a) && (a <? ptr p + size p)
      then (let j := (1 + Z.to_nat (a - ptr p))%nat in
            if (j <? length payload)%nat then nth j payload 0
            else if (j =? 1)%nat then n else readbuf s j)
      else mem s a.
Proof.
  intros Hb Hlen n p Hsz Hi.
  assert (B0 : forall op, frame_buf (readbuf s) op payload 0%nat = nth 0 payload 0).
  { intros op. rewrite frame_buf_spec.
    destruct (Nat.ltb_spec 0 (length payload)); [|lia].
    apply u8_small, nth_byte; [assumption|lia]. }
  rewrite (doOp_frame 4 payload rest s ltac:(lia) ltac:(lia) Hi).
  unfold dispatch. rewrite (bind_eq _ _ _ _ _ eq_refl).
  cbn -[memcpy_from_buf frame_buf Nat.ltb Nat.eqb]. rewrite B0. fold p.
  eexists. split; [reflexivity|]. split; [reflexivity|].
  intros a. cbn [mem set_mem]. unfold memcpy_from_buf.
  destruct ((ptr p <=? a) && (a <? ptr p + size p)); [|reflexivity].
  cbn [readbuf]. rewrite frame_buf_spec. cbn [Nat.add].
  destruct (Nat.ltb_spec (S (Z.to_nat (a - ptr p))) (length payload)).
  + apply u8_small, nth_byte; assumption.
  + cbn [Nat.eqb]. destruct (Z.to_nat (a - ptr p)); [|reflexivity].
    cbn [Nat.eqb]. apply u8_small. unfold n. lia.
Qed.

(** ** Sequences of captures, frame by frame *)

Definition reg_frame (r : Z * Z * Z) (idx : Z) : list ev :=
  let '(line, x, sz) := r in map Write (capture_frame line x sz idx).

Lemma capture_frames_seq regs : forall c,
  capture_frames c regs =
  concat (map (fun i => reg_frame (nth i regs (0, 0, 0)) (c + Z.of_nat i)) (seq 0 (length regs))).
Proof.
  induction regs as [|[[line x] sz] rs IH]; intros c; [reflexivity|].
  cbn [capture_frames length seq map concat nth].
  rewrite IH. replace (c + Z.of_nat 0) with c by lia. cbn [reg_frame]. f_equal.
  rewrite <- seq_shift, map_map. f_equal. apply map_ext. intros i. cbn [nth].
  f_equal. lia.
Qed.

Lemma capture_frame_last line x sz idx :
  0 <= idx < 256 -> last (capture_frame line x sz idx) 0 = idx.
Proof. intros H. cbn. apply u8_small. assumption. Qed.

(** ** Which frames the emitters write *)

(** [m] always returns and writes a frame starting with the sync bytes and
    opcode byte [o]. *)
Definition emits_total (o : Z) (m : M unit) : Prop :=
  forall s, exists s', m s = Some (tt, s') /\
    exists tl, output s' = output s ++ [Write 160; Write 30; Write o] ++ tl.

(** Whenever [m] returns, it has written a frame starting with the sync
    bytes and opcode byte [o]. *)
Definition emits_if_returns (o : Z) (m : M unit) : Prop :=
  forall s s', m s = Some (tt, s') ->
    exists tl, output s' = output s ++ [Write 160; Write 30; Write o] ++ tl.

Lemma print_emits line str : emits_total 13 (print line str).
Proof.
  intro s. unfold print, bind, set_buf, modify. rewrite sendOp_spec.
  eexists; split; [reflexivity|]. cbn. eexists. reflexivity.
Qed.

Lemma println_emits line str : emits_total 13 (println line str).
Proof.
  intro s. unfold println, bind, set_buf, modify. rewrite sendOp_spec.
  eexists; split; [reflexivity|]. cbn. eexists. reflexivity.
Qed.

Lemma capture_emits line x sz : emits_total 9 (capture line x sz).
Proof.
  intro s. destruct (capture_spec line x sz s) as (s' & E & _ & _ & Ho & _).
  exists s'. split; [exact E|]. rewrite Ho. eexists. reflexivity.
Qed.

Lemma dispatch_read_mem_emits n : emits_total 10 (dispatch 1 n).
Proof.
  intro s. unfold dispatch, bind, get, modify. cbn -[sendOp]. rewrite sendOp_spec.
  eexists; split; [reflexivity|]. cbn. eexists. reflexivity.
Qed.

Lemma dispatch_read_cap_emits n : emits_total 11 (dispatch 3 n).
Proof.
  intro s. unfold dispatch, bind, get, modify. cbn -[sendOp]. rewrite sendOp_spec.
  eexists; split; [reflexivity|]. cbn. eexists. reflexivity.
Qed.

Lemma dispatch_read_pin_emits n : emits_total 12 (dispatch 5 n).
Proof.
  intro s. unfold dispatch, bind, get, modify, digitalRead, set_buf. cbn -[sendOp].
  rewrite sendOp_spec. eexists; split; [reflexivity|]. cbn. eexists. reflexivity.
Qed.

Lemma debugger_emits fuel line : emits_if_returns 8 (debugger fuel line).
Proof.
  intros s s' H. unfold debugger in H.
  apply bind_inv in H as ([] & s1 & H1 & H). inversion H1; subst; clear H1.
  apply bind_inv in H as ([] & s2 & H2 & H). inversion H2; subst; clear H2.
  apply bind_inv in H as ([] & s3 & H3 & H).
  rewrite sendOp_spec in H3. inversion H3; subst; clear H3.
  apply bind_inv in H as ([] & s4 & H4 & H). inversion H4; subst; clear H4.
  apply readOp_progress in H. destruct H as ((tl & Ho) & _).
  rewrite Ho. cbn [output set_loops set_output set_readbuf]. unfold frame_bytes.
  rewrite <- !app_assoc. eexists. reflexivity.
Qed.

Lemma round_emits f ml d line :
  emits_if_returns 7 (set_buf 0 (Z.shiftr line 8) ;;; set_buf 1 line ;;;
                      sendOp (opcode KDB_INIT) 2 ;;; readOp f ml ;;; delay d).
Proof.
  intros s s' H.
  apply bind_inv in H as ([] & s1 & H1 & H). inversion H1; subst; clear H1.
  apply bind_inv in H as ([] & s2 & H2 & H). inversion H2; subst; clear H2.
  apply bind_inv in H as ([] & s3 & H3 & H).
  rewrite sendOp_spec in H3. inversion H3; subst; clear H3.
  apply bind_inv in H as ([] & s4 & H4 & H).
  unfold delay, modify in H. inversion H; subst; clear H.
  destruct (readOp_progress _ _ _ _ H4) as ((tl & Ho) & _).
  cbn [output set_output]. rewrite Ho. cbn [output set_output set_readbuf].
  unfold frame_bytes. rewrite <- !app_assoc. eexists. reflexivity.
Qed.

Lemma init_round_emits line : emits_if_returns 7 (init_round line).
Proof. exact (round_emits 200 200 100 line). Qed.

(** * Claims *)

(** ** C7: [init(line)] *)



(** ** C6: RETURN *)

(** C6: when [readOp] is polling with [loops] set and a RETURN frame arrives
    (sync bytes, opcode 0, any length and payload), the dispatch clears
    [loops], [readOp] returns at the next loop test without polling again,
    and nothing is written to the serial output. *)
Theorem return_frame_stops_loop (fuel : nat) (ml : Z) (payload : list Z)
    (rest : list (option Z)) (s : St) :
  loops s = true -> (ml = 255 \/ 3 <= ml < 255) -> (length payload < 256)%nat ->
  input s = map Some ([160; 30; 0; Z.of_nat (length payload)] ++ payload) ++ rest ->
  exists s', readOp (S (S (S fuel))) ml s = Some (tt, s') /\
    loops s' = false /\ output s' = output s /\ input s' = rest.
Proof.
  intros Hl Hml Hlen Hi. unfold readOp.
  cbn [map app] in Hi.
  rewrite (readOp_loop_sync _ _ _ _ Hl Hml Hi).
  rewrite (bind_eq _ _ _ _ _ (doOp_frame 0 payload rest (set_input _ s)
                                 ltac:(lia) Hlen eq_refl)).
  eexists. split; [reflexivity|].
  cbn. split; [reflexivity|]. split; reflexivity.
Qed.

Lemma return_frame_stops_loop_witness :
  exists s', readOp 3 255 (set_loops true (kdb_new (fun _ => 0) (fun _ => 0)
                              (map Some [160; 30; 0; 0]))) = Some (tt, s') /\
    loops s' = false /\ output s' = [] /\ input s' = [].
Proof.
  apply (return_frame_stops_loop 0 255 [] []
           (set_loops true (kdb_new (fun _ => 0) (fun _ => 0) (map Some [160; 30; 0; 0])))).
  - reflexivity.
  - left; reflexivity.
  - cbn; lia.
  - reflexivity.
Defined.

(** ** C2: frame round trip *)

(** C2: a frame with opcode [op] and a payload of at most 32 bytes, held in
    the scratch buffer, is written by [sendOp] as the bytes
    [0xA0, 0x1E, op, length, payload...]; a [readOp] that is polling with
    [loops] set and receives exactly these bytes dispatches, through
    [doOp], the frame with the same opcode, length and payload, and then
    carries on polling the rest of the line. *)
Theorem frame_roundtrip (op : Z) (payload : list Z) (s : St) :
  is_byte op -> Forall is_byte payload -> (length payload <= 32)%nat ->
  (forall i, (i < length payload)%nat -> readbuf s i = nth i payload 0) ->
  let n := Z.of_nat (length payload) in
  sendOp op n s =
    Some (tt, set_output (output s ++ map Write ([160; 30; op; n] ++ payload)) s) /\
  forall (r : St) rest fuel ml,
    loops r = true -> (ml = 255 \/ 3 <= ml < 255) ->
    input r = map Some ([160; 30; op; n] ++ payload) ++ rest ->
    exists r1, received r1 = received r ++ [mkFrame op n payload] /\
      readOp (S (S fuel)) ml r = readOp_loop fuel (dec_ml (dec_ml ml)) 0 r1.
Proof.
  intros Hop Hb Hlen Hbuf n. split.
  - rewrite sendOp_spec. unfold frame_bytes.
    assert (Hn : u8 n = n) by (apply u8_small; unfold n; lia).
    rewrite Hn, (u8_small op Hop). unfold n. rewrite Nat2Z.id.
    rewrite (map_seq_bytes _ _ Hb Hbuf). reflexivity.
  - intros r rest fuel ml Hl Hml Hi. cbn [map app] in Hi.
    unfold readOp. rewrite (readOp_loop_sync _ _ _ _ Hl Hml Hi).
    destruct (dispatch_some op n
      (mkSt (caps r) (capsize r) (frame_buf (readbuf r) op payload) (loops r)
            (mem r) (pins r) rest (output r)
            (received r ++ [mkFrame op n (buf_prefix (frame_buf (readbuf r) op payload) n)])))
      as (r1 & D).
    rewrite (bind_eq _ _ _ _ _
      (eq_trans (doOp_frame op payload rest
                   (set_input (Some op :: Some n :: map Some payload ++ rest) r)
                   Hop ltac:(lia) eq_refl) D)).
    exists r1. split; [|reflexivity].
    apply dispatch_effect in D. destruct D as (_ & Hr & _).
    rewrite Hr. cbn [received]. unfold n. rewrite frame_buf_payload by assumption.
    reflexivity.
Qed.

Lemma frame_roundtrip_witness :
  sendOp 3 2 (set_readbuf (fun i => nth i [7; 200] 0) (kdb_new (fun _ => 0) (fun _ => 0) []))
  = Some (tt, set_output (map Write [160; 30; 3; 2; 7; 200])
               (set_readbuf (fun i => nth i [7; 200] 0) (kdb_new (fun _ => 0) (fun _ => 0) []))) /\
  exists r1, received r1 = [mkFrame 3 2 [7; 200]] /\
    readOp 3 255 (set_loops true (kdb_new (fun _ => 0) (fun _ => 0) (map Some [160; 30; 3; 2; 7; 200])))
    = readOp_loop 1 255 0 r1.
Proof.
  destruct (frame_roundtrip 3 [7; 200]
              (set_readbuf (fun i => nth i [7; 200] 0) (kdb_new (fun _ => 0) (fun _ => 0) [])))
    as [H1 H2].
  - unfold is_byte; lia.
  - repeat constructor; unfold is_byte; lia.
  - cbn; lia.
  - intros i Hi; reflexivity.
  - split; [exact H1|].
    apply (H2 (set_loops true (kdb_new (fun _ => 0) (fun _ => 0) (map Some [160; 30; 3; 2; 7; 200])))
             [] 1%nat 255); [reflexivity | left; reflexivity | reflexivity].
Defined.

(** ** C9: READ_CAP and WRITE_CAP move exactly the slot's size *)

(** C9: for a READ_CAP or WRITE_CAP frame whose payload starts with slot
    index [k], the transfer length is the size [size (caps k)] recorded in
    the slot, whatever length the frame declares.  READ_CAP answers with a
    READ_CAP_RES frame carrying exactly that many bytes, read from the
    slot's address.  WRITE_CAP writes exactly that many bytes at the slot's
    address and nothing else.  Byte [i] comes from scratch-buffer index
    [1 + i]: a payload byte when the frame has one there, and otherwise the
    stale buffer content (the header's length byte at index 1, the old
    buffer beyond it). *)
Theorem cap_ops_transfer_slot_size (payload : list Z) (rest : list (option Z)) (s : St) :
  Forall is_byte payload -> (1 <= length payload < 256)%nat ->
  let n := Z.of_nat (length payload) in
  let p := caps s (nth 0 payload 0) in
  is_byte (size p) ->
  (input s = map Some (opcode KDB_READ_CAP :: n :: payload) ++ rest ->
     exists s', doOp s = Some (tt, s') /\
       output s' = output s ++ map Write ([160; 30; 11; size p] ++
          map (fun i => u8 (mem s (ptr p + Z.of_nat i))) (seq 0 (Z.to_nat (size p))))) /\
  (input s = map Some (opcode KDB_WRITE_CAP :: n :: payload) ++ rest ->
     exists s', doOp s = Some (tt, s') /\ output s' = output s /\
       forall a, mem s' a =
         if (ptr p <=? a) && (a <? ptr p + size p)
         then (let j := (1 + Z.to_nat (a - ptr p))%nat in
               if (j <? length payload)%nat then nth j payload 0
               else if (j =? 1)%nat then n else readbuf s j)
         else mem s a).
Proof.
  intros Hb Hlen n p Hsz. split.
  - apply doOp_read_cap; assumption.
  - apply doOp_write_cap; assumption.
Qed.

Lemma cap_ops_transfer_slot_size_witness :
  let s := set_caps (fun _ => mkPtr 4 100)
             (kdb_new (fun a => a mod 256) (fun _ => 0) (map Some [3; 1; 0])) in
  let s2 := set_input (map Some [4; 2; 0; 9]) s in
  (exists s', doOp s = Some (tt, s') /\
     output s' = map Write [160; 30; 11; 4; 100; 101; 102; 103]) /\
  (exists s', doOp s2 = Some (tt, s') /\ output s' = [] /\
     forall a, mem s' a =
       if (100 <=? a) && (a <? 104)
       then (let j := (1 + Z.to_nat (a - 100))%nat in
             if (j <? 2)%nat then nth j [0; 9] 0
             else if (j =? 1)%nat then 2 else 0)
       else a mod 256).
Proof.
  intros s s2.
  destruct (cap_ops_transfer_slot_size [0] [] s) as [H1 _];
    [repeat constructor; unfold is_byte; lia | cbn; lia | unfold is_byte; cbn; lia |].
  destruct (cap_ops_transfer_slot_size [0; 9] [] s2) as [_ H2];
    [repeat constructor; unfold is_byte; lia | cbn; lia | unfold is_byte; cbn; lia |].
  split; [apply H1; reflexivity | apply H2; reflexivity].
Defined.

(** C5: after a reset of the capture table ([capsize = 0], as [init] leaves
    it), a sequence of at most 32 calls of [capture] assigns indices 0, 1, 2,
    ... in order: the [i]-th registration is stored at index [i], no index
    is used twice, [capsize] ends at the number of registrations, and the
    [i]-th CAPTURE frame written carries [i] as its last payload byte. *)
Theorem capture_slots_sequential (regs : list (Z * Z * Z)) (s : St) :
  capsize s = 0 -> (length regs <= 32)%nat ->
  exists s', capture_seq regs s = Some (tt, s') /\
    capsize s' = Z.of_nat (length regs) /\
    (forall i, (i < length regs)%nat ->
       caps s' (Z.of_nat i) = reg_slot (nth i regs (0, 0, 0))) /\
    output s' = output s ++
      concat (map (fun i => reg_frame (nth i regs (0, 0, 0)) (Z.of_nat i))
                  (seq 0 (length regs))) /\
    (forall line x sz i, (i < 32)%nat ->
       last (capture_frame line x sz (Z.of_nat i)) 0 = Z.of_nat i).
Proof.
  intros Hc Hlen.
  destruct (capture_seq_spec regs s 0 Hc ltac:(lia) ltac:(lia))
    as (s' & E & Hsz & Hnew & _ & Hout).
  exists s'. split; [exact E|]. split; [rewrite Hsz; lia|]. split; [|split].
  - intros i Hi. rewrite <- (Hnew i Hi). f_equal.
  - rewrite Hout, capture_frames_seq. reflexivity.
  - intros line x sz i Hi. apply capture_frame_last. lia.
Qed.

Lemma capture_slots_sequential_witness :
  let s0 := kdb_new (fun _ => 0) (fun _ => 0) [] in
  let regs := [(10, 500, 2); (11, 600, 4); (12, 700, 1)] in
  exists s', capture_seq regs s0 = Some (tt, s') /\
    capsize s' = Z.of_nat (length regs) /\
    (forall i, (i < length regs)%nat ->
       caps s' (Z.of_nat i) = reg_slot (nth i regs (0, 0, 0))) /\
    output s' = output s0 ++
      concat (map (fun i => reg_frame (nth i regs (0, 0, 0)) (Z.of_nat i))
                  (seq 0 (length regs))) /\
    (forall line x sz i, (i < 32)%nat ->
       last (capture_frame line x sz (Z.of_nat i)) 0 = Z.of_nat i).
Proof.
  intros s0 regs. apply (capture_slots_sequential regs s0); [reflexivity | cbn; lia].
Defined.







(** C1: [readOp] does not need the two sync bytes to be adjacent.  A byte
    other than 0x1E after 0xA0 leaves [isOp] set, so the input
    0xA0, 0x00, 0x1E, 0x00, 0x00, which does not contain 0xA0 immediately
    followed by 0x1E, still completes a frame: the RETURN frame is
    dispatched and the loop stops. *)
Theorem readOp_sync_not_adjacent :
  let s0 := set_loops true (kdb_new (fun _ => 0) (fun _ => 0) (map Some [160; 0; 30; 0; 0])) in
  option_map (fun '(_, s') => (received s', loops s', input s')) (readOp 6 255 s0) =
  Some ([mkFrame 0 0 []], false, []).
Proof. vm_compute. reflexivity. Qed.

(** C8: [print] and [println] store [strlen(str)] in a [uint8_t] before the
    29-byte cap.  A text of 256 bytes wraps to length 0, so the PRINT frame
    carries no text at all instead of the first 29 bytes; a text of 255
    bytes is cut to 29 as intended. *)
Theorem print_length_wraps :
  let s0 := kdb_new (fun _ => 0) (fun _ => 0) [] in
  option_map (fun '(_, s') => output s') (print 300 (repeat 65 256) s0) =
    Some (map Write [160; 30; 13; 3; 1; 44; 0]) /\
  option_map (fun '(_, s') => output s') (println 300 (repeat 65 256) s0) =
    Some (map Write [160; 30; 13; 3; 1; 44; 1]) /\
  option_map (fun '(_, s') => output s') (print 300 (repeat 65 255) s0) =
    Some (map Write ([160; 30; 13; 32; 1; 44; 0] ++ repeat 65 29)).
Proof. repeat split; vm_compute; reflexivity. Qed.

(** C10: the opcode of each [_KDB_OpType] constructor is its position in the
    declaration, RETURN = 0 up to PRINT = 13, and the list covers every
    constructor.  The frames written use these values: PRINT (13) by [print]
    and [println], CAPTURE (9) by [capture], INIT (7) by each round of
    [init], DEBUGGER (8) by [debugger], and READ_MEM_RES (10), READ_CAP_RES
    (11) and READ_PIN_RES (12) by the handlers of READ_MEM (1), READ_CAP (3)
    and READ_PIN (5); the handler of RETURN (0) clears [loops]. *)
Theorem opcode_values :
  map opcode OpType_decl = [0; 1; 2; 3; 4; 5; 6; 7; 8; 9; 10; 11; 12; 13] /\
  (forall o, In o OpType_decl) /\
  opcode KDB_RETURN = 0 /\ opcode KDB_READ_MEM = 1 /\ opcode KDB_WRITE_MEM = 2 /\
  opcode KDB_READ_CAP = 3 /\ opcode KDB_WRITE_CAP = 4 /\ opcode KDB_READ_PIN = 5 /\
  opcode KDB_WRITE_PIN = 6 /\ opcode KDB_INIT = 7 /\ opcode KDB_DEBUGGER = 8 /\
  opcode KDB_CAPTURE = 9 /\ opcode KDB_READ_MEM_RES = 10 /\ opcode KDB_READ_CAP_RES = 11 /\
  opcode KDB_READ_PIN_RES = 12 /\ opcode KDB_PRINT = 13 /\
  (forall line str, emits_total 13 (print line str)) /\
  (forall line str, emits_total 13 (println line str)) /\
  (forall line x sz, emits_total 9 (capture line x sz)) /\
  (forall line, emits_if_returns 7 (init_round line)) /\
  (forall fuel line, emits_if_returns 8 (debugger fuel line)) /\
  (forall n, emits_total 10 (dispatch 1 n)) /\
  (forall n, emits_total 11 (dispatch 3 n)) /\
  (forall n, emits_total 12 (dispatch 5 n)) /\
  (forall n s s', dispatch 0 n s = Some (tt, s') -> loops s' = false).
Proof.
  repeat split; try reflexivity.
  - intros []; cbn; tauto.
  - apply print_emits.
  - apply println_emits.
  - apply capture_emits.
  - apply init_round_emits.
  - apply debugger_emits.
  - apply dispatch_read_mem_emits.
  - apply dispatch_read_cap_emits.
  - apply dispatch_read_pin_emits.
  - intros n s s' H. apply dispatch_effect in H. destruct H as (_ & _ & _ & ->).
    reflexivity.
Qed.
